(** * SPS30 particulate-matter sensor driver (matter_sensor.py)

    A shallow embedding of the [SPS30] class: the byte-stuffing reversal, the
    accumulating [read] loop, the six command operations with the frames they
    write, and the decoding of the measurement payload.  The UART is an
    explicit environment that answers the calls the driver makes; every call
    is appended to a log, so that the order of the calls can be stated.  The
    [print] calls go to the console, not to the UART, and are left out.

    The module imports [machine] and builds a [machine.Pin] when it is
    loaded, so it runs on MicroPython only; the library calls it makes
    ([struct.unpack], [bytes.decode]) are modelled as MicroPython has them. *)

From Stdlib Require Import List ZArith Lia Bool Arith String.
From Stdlib Require Import Strings.Byte Floats.SpecFloat.
From Stdlib Require DecimalString.
Import ListNotations.
Local Open Scope Z_scope.

(** ** Bytes *)

(** A Python [bytes] / [bytearray] value. *)
Definition bytes := list byte.

Definition byte_val (b : byte) : Z := Z.of_N (Byte.to_N b).

(** Python's [len], as an integer. *)
Definition len (bs : bytes) : Z := Z.of_nat (List.length bs).

Module Stuffing.

(** [pat in raw] for a two-byte pattern [bytes([a, b])]. *)
Fixpoint contains (a b : byte) (raw : bytes) : bool :=
  match raw with
  | [] => false
  | x :: rest =>
      match rest with
      | [] => false
      | y :: _ => (Byte.eqb x a && Byte.eqb y b) || contains a b rest
      end
  end.

(** [raw.replace(bytes([a, b]), bytes([c]))]: the occurrences are found from
    the left and do not overlap; the replaced text is not scanned again. *)
Fixpoint replace (a b c : byte) (raw : bytes) : bytes :=
  match raw with
  | [] => []
  | x :: rest =>
      match rest with
      | [] => [x]
      | y :: rest' =>
          if Byte.eqb x a && Byte.eqb y b
          then c :: replace a b c rest'
          else x :: replace a b c rest
      end
  end.

(** One [if pat in raw: raw = raw.replace(pat, new)] statement. *)
Definition unstuff_step (a b c : byte) (raw : bytes) : bytes :=
  if contains a b raw then replace a b c raw else raw.

(** [SPS30.reverse_byte_stuffing]: the four replacements, one after the other,
    each over the whole buffer left by the one before. *)
Definition reverse_byte_stuffing (raw : bytes) : bytes :=
  let raw := unstuff_step x7d x5e x7e raw in
  let raw := unstuff_step x7d x5d x7d raw in
  let raw := unstuff_step x7d x31 x11 raw in
  let raw := unstuff_step x7d x33 x13 raw in
  raw.

(** Modelled from the spec: the forward stuffing step of [buildFrame], which
    the driver does not have (it writes literal frames); it is the escaping of
    the SHDLC protocol, 0x7E -> 0x7D 0x5E, 0x7D -> 0x7D 0x5D,
    0x11 -> 0x7D 0x31, 0x13 -> 0x7D 0x33, every other byte unchanged. *)
Definition stuff_byte (b : byte) : bytes :=
  if Byte.eqb b x7e then [x7d; x5e]
  else if Byte.eqb b x7d then [x7d; x5d]
  else if Byte.eqb b x11 then [x7d; x31]
  else if Byte.eqb b x13 then [x7d; x33]
  else [b].

Definition forwardStuff (p : bytes) : bytes := flat_map stuff_byte p.

(** For the proofs: stuffing under a table [t] of escape codes, and the table
    left when the byte [c] is no longer escaped.  [escape_codes] is the table
    of [stuff_byte]; each replacement of [reverse_byte_stuffing] is meant to
    take one byte out of it. *)
Definition stuff_with (t : byte -> option byte) (b : byte) : bytes :=
  match t b with
  | Some z => [x7d; z]
  | None => [b]
  end.

Definition drop (c : byte) (t : byte -> option byte) (b : byte) : option byte :=
  if Byte.eqb b c then None else t b.

Definition escape_codes (b : byte) : option byte :=
  if Byte.eqb b x7e then Some x5e
  else if Byte.eqb b x7d then Some x5d
  else if Byte.eqb b x11 then Some x31
  else if Byte.eqb b x13 then Some x33
  else None.

End Stuffing.

Import Stuffing.

(** ** The UART and the calls made on it *)

(** The calls the driver makes on [self.uart], in the order it makes them. *)
Inductive event : Type :=
| EvAny                    (* uart.any() *)
| EvReadAll                (* uart.read() *)
| EvRead (n : Z)           (* uart.read(n) *)
| EvWrite (bs : bytes)     (* uart.write(bs) *)
| EvFlush.                 (* uart.flush() *)

(** What the UART answers.  An answer may depend on how many calls were made
    before it (the position of the call in the log) and, for a bounded read,
    on the bound.  [None] is Python's [None]: nothing arrived before the
    timeout. *)
Record uart : Type := {
  uart_any : nat -> bool;
  uart_read_all : nat -> option bytes;
  uart_read : nat -> Z -> option bytes
}.

(** What a method of the driver does: it returns a value, returns [None] after
    a timeout, raises, or is still in its loop when the fuel is spent. *)
Inductive outcome (A : Type) : Type :=
| Return (a : A)
| Timeout
| Raised
| OutOfFuel.

Arguments Return {A} a.
Arguments Timeout {A}.
Arguments Raised {A}.
Arguments OutOfFuel {A}.

(** A computation that appends its calls to the log. *)
Definition io (A : Type) : Type := list event -> A * list event.

Definition ret {A : Type} (a : A) : io A := fun log => (a, log).

Definition bind {A B : Type} (m : io A) (k : A -> io B) : io B :=
  fun log => let (a, log') := m log in k a log'.

Notation "x <- m ;; k" := (bind m (fun x => k))
  (at level 61, m at next level, right associativity).
Notation "m ;;; k" := (bind m (fun _ => k))
  (at level 61, right associativity).

(** Python's slice [raw[start:-back]] for [start >= 0] and [back > 0]. *)
Definition slice (start back : nat) (raw : bytes) : bytes :=
  firstn (List.length raw - back - start) (skipn start raw).

(** ** Decoding *)

Definition be32 (b0 b1 b2 b3 : byte) : Z :=
  byte_val b0 * 2^24 + byte_val b1 * 2^16 + byte_val b2 * 2^8 + byte_val b3.

(** The IEEE 754 binary32 number with the bit pattern [w]; the float of the
    runtime represents every binary32 number exactly. *)
Definition float_of_bits32 (w : Z) : spec_float :=
  let s := Z.testbit w 31 in
  let e := Z.land (Z.shiftr w 23) 255 in
  let m := Z.land w 8388607 in
  if e =? 0 then
    if m =? 0 then S754_zero s else S754_finite s (Z.to_pos m) (-149)
  else if e =? 255 then
    if m =? 0 then S754_infinity s else S754_nan
  else S754_finite s (Z.to_pos (m + 8388608)) (e - 150).

(** [struct.unpack(">f...f", bs)] with [n] times [f].  MicroPython's
    [unpack] asks for a buffer that is big enough, not for one of the exact
    size of the format: it decodes the first [4 * n] bytes and leaves the
    rest alone.  [None] stands for the exception it raises when the buffer
    is too small. *)
Fixpoint unpack_floats (n : nat) (bs : bytes) : option (list spec_float) :=
  match n with
  | O => Some []
  | S n' =>
      match bs with
      | b0 :: b1 :: b2 :: b3 :: rest =>
          option_map (cons (float_of_bits32 (be32 b0 b1 b2 b3))) (unpack_floats n' rest)
      | _ => None
      end
  end.

Definition signed_byte (b : byte) : Z :=
  if byte_val b <? 128 then byte_val b else byte_val b - 256.

(** [struct.unpack(">b...b", bs)] with [n] times [b], under the same rule:
    the first [n] bytes of a buffer that is big enough. *)
Fixpoint unpack_signed (n : nat) (bs : bytes) : option (list Z) :=
  match n with
  | O => Some []
  | S n' =>
      match bs with
      | b :: rest => option_map (cons (signed_byte b)) (unpack_signed n' rest)
      | [] => None
      end
  end.

(** The number of continuation bytes that follow the lead byte [c] of a
    UTF-8 sequence: [(0xe5 >> ((c >> 3) & 0x6)) & 3]. *)
Definition utf8_need (c : Z) : nat :=
  Z.to_nat (Z.land (Z.shiftr 229 (Z.land (Z.shiftr c 3) 6)) 3).

(** MicroPython's check that a buffer is UTF-8, with [need] continuation
    bytes still expected: a continuation byte is 0x80..0xBF, a lead byte
    0xC0..0xF7, and no sequence may be left open at the end. *)
Fixpoint utf8_check (need : nat) (bs : bytes) : bool :=
  match bs with
  | [] => Nat.eqb need 0
  | b :: rest =>
      let c := byte_val b in
      match need with
      | S need' => if Z.land c 192 =? 128 then utf8_check need' rest else false
      | O =>
          if 192 <=? c then
            if 248 <=? c then false else utf8_check (utf8_need c) rest
          else if 128 <=? c then false
          else utf8_check 0 rest
      end
  end.

(** [bs.decode('ascii')].  MicroPython's [bytes.decode] does not look at the
    name of the codec: it makes a [str] of the bytes as they are and raises
    only when they are not UTF-8.  The string is kept as its bytes. *)
Definition decode_ascii (bs : bytes) : option string :=
  if utf8_check 0 bs then Some (string_of_list_byte bs) else None.

(** [str(i)] for an integer. *)
Definition str (i : Z) : string := DecimalString.NilZero.string_of_int (Z.to_int i).

Definition zero_tuple : list spec_float := repeat (S754_zero false) 10.

(** The [try: struct.unpack(">ffffffffff", raw_data) except Exception: ...]
    of [read_values], on the payload [raw_data]. *)
Definition decode_values (raw_data : bytes) : list spec_float :=
  match unpack_floats 10 raw_data with
  | Some data => data
  | None => zero_tuple
  end.

(** ** The driver *)

Module SPS30.

(** The frames the methods write, as the source spells them. *)
Definition start_frame : bytes := [x7e; x00; x00; x02; x01; x03; xf9; x7e].
Definition stop_frame : bytes := [x7e; x00; x01; x00; xfe; x7e].
Definition read_values_frame : bytes := [x7e; x00; x03; x00; xfc; x7e].
Definition read_product_type_frame : bytes := [x7e; x00; xd0; x01; x00; x2e; x7e].
Definition read_serial_number_frame : bytes := [x7e; x00; xd0; x01; x03; x2b; x7e].
Definition read_firmware_version_frame : bytes := [x7e; x00; xd1; x00; x2e; x7e].

Section Driver.

(** [self.uart] *)
Variable u : uart.

Definition any : io bool :=
  fun log => (uart_any u (List.length log), log ++ [EvAny]).

Definition read_all : io (option bytes) :=
  fun log => (uart_read_all u (List.length log), log ++ [EvReadAll]).

Definition read_upto (n : Z) : io (option bytes) :=
  fun log => (uart_read u (List.length log) n, log ++ [EvRead n]).

Definition write (bs : bytes) : io unit :=
  fun log => (tt, log ++ [EvWrite bs]).

Definition flush : io unit :=
  fun log => (tt, log ++ [EvFlush]).

Definition start : io unit :=
  write start_frame ;;; flush.

Definition stop : io unit :=
  write stop_frame ;;; flush.

Definition flush_input : io unit :=
  pending <- any ;;
  if pending then read_all ;;; ret tt else ret tt.

(** The [while length > 0] loop of [read], entered with [length] bytes still
    missing and [data] accumulated; [fuel] bounds the number of iterations. *)
Fixpoint read_loop (fuel : nat) (length : Z) (data : bytes) : io (outcome bytes) :=
  if length >? 0 then
    match fuel with
    | O => ret OutOfFuel
    | S fuel' =>
        raw <- read_upto length ;;
        match raw with
        | None => ret Timeout
        | Some raw =>
            let raw := reverse_byte_stuffing raw in
            read_loop fuel' (length - len raw) (data ++ raw)
        end
    end
  else ret (Return data).

Definition read (fuel : nat) (length : Z) : io (outcome bytes) :=
  read_loop fuel length [].

Definition read_values (fuel : nat) : io (outcome (list spec_float)) :=
  flush_input ;;;
  write read_values_frame ;;;
  raw <- read fuel 47 ;;
  match raw with
  | Return raw => ret (Return (decode_values (slice 5 2 raw)))
  | Timeout => ret Timeout
  | Raised => ret Raised
  | OutOfFuel => ret OutOfFuel
  end.

(** The part shared by [read_product_type] and [read_serial_number], which
    differ in the frame only. *)
Definition read_text (frame : bytes) : io (outcome string) :=
  flush_input ;;;
  write frame ;;;
  raw <- read_upto 24 ;;
  match raw with
  | None => ret Timeout
  | Some raw =>
      let raw := reverse_byte_stuffing raw in
      match decode_ascii (slice 5 3 raw) with
      | Some text => ret (Return text)
      | None => ret Raised
      end
  end.

Definition read_product_type : io (outcome string) :=
  read_text read_product_type_frame.

Definition read_serial_number : io (outcome string) :=
  read_text read_serial_number_frame.

Definition read_firmware_version : io (outcome string) :=
  flush_input ;;;
  write read_firmware_version_frame ;;;
  raw <- read_upto 14 ;;
  match raw with
  | None => ret Timeout
  | Some raw =>
      let raw := reverse_byte_stuffing raw in
      match unpack_signed 7 (slice 5 2 raw) with
      | Some (major :: minor :: _) => ret (Return (str major ++ "." ++ str minor)%string)
      | _ => ret Raised
      end
  end.

End Driver.

(** The public methods. *)
Inductive operation : Type :=
| Start | Stop | ReadValues | ReadProductType | ReadSerialNumber | ReadFirmwareVersion.

(** The calls a method makes on a fresh log. *)
Definition calls (u : uart) (fuel : nat) (op : operation) : list event :=
  match op with
  | Start => snd (start [])
  | Stop => snd (stop [])
  | ReadValues => snd (read_values u fuel [])
  | ReadProductType => snd (read_product_type u [])
  | ReadSerialNumber => snd (read_serial_number u [])
  | ReadFirmwareVersion => snd (read_firmware_version u [])
  end.

End SPS30.

Import SPS30.

(** ** Frames *)

Definition sum_bytes (bs : bytes) : Z :=
  fold_right (fun b acc => byte_val b + acc) 0 bs.

(** The SHDLC checksum of a frame body: the complement of the low byte of the
    sum of its bytes. *)
Definition checksum (body : bytes) : Z :=
  Z.land (Z.lnot (Z.land (sum_bytes body) 255)) 255.

(** The frames among the calls. *)
Definition writes (calls : list event) : list bytes :=
  flat_map (fun e => match e with EvWrite bs => [bs] | _ => [] end) calls.

(** The fields of an outbound frame [0x7E addr cmd len args... chk 0x7E]. *)
Definition frame_command (frame : bytes) : option byte := nth_error frame 2.
Definition frame_length (frame : bytes) : option byte := nth_error frame 3.
Definition frame_argument (frame : bytes) : option byte := nth_error frame 4.

(** The frame each method writes. *)
Definition command_frame (op : operation) : bytes :=
  match op with
  | Start => start_frame
  | Stop => stop_frame
  | ReadValues => read_values_frame
  | ReadProductType => read_product_type_frame
  | ReadSerialNumber => read_serial_number_frame
  | ReadFirmwareVersion => read_firmware_version_frame
  end.

(** The methods that go on to read a response. *)
Definition reads_response (op : operation) : bool :=
  match op with
  | Start | Stop => false
  | _ => true
  end.

(** ** Properties of the UART and of the calls *)

(** A bounded read never returns more than it was asked for. *)
Definition at_most_requested (u : uart) : Prop :=
  forall i n raw, 0 <= n -> uart_read u i n = Some raw -> len raw <= n.

(** The transport contract of the specification: a bounded read returns
    between 0 and [n] bytes, or times out. *)
Definition transport_contract (u : uart) : Prop :=
  forall i n, 0 <= n ->
    match uart_read u i n with
    | Some raw => 0 <= len raw <= n
    | None => True
    end.

(** The contract of MicroPython's [UART.read]: a read that returns at all
    returns at least one byte. *)
Definition never_empty (u : uart) : Prop :=
  forall i n, 0 <= n ->
    match uart_read u i n with
    | Some raw => 1 <= len raw <= n
    | None => True
    end.

(** [read] comes to an end on [u]: with enough fuel it leaves its loop. *)
Definition read_terminates (u : uart) (length : Z) (log : list event) : Prop :=
  exists fuel, fst (read u fuel length log) <> OutOfFuel.

(** The calls start with those of [flush_input], and the next call writes a
    frame. *)
Definition flushes_then_writes (u : uart) (calls : list event) : Prop :=
  exists frame rest, calls = snd (flush_input u []) ++ EvWrite frame :: rest.

(** The chunks a run of [read] received: the answers to the bounded reads
    logged from position [from] on. *)
Fixpoint chunks_from (u : uart) (from : nat) (calls : list event) : list bytes :=
  match calls with
  | [] => []
  | EvRead n :: rest =>
      match uart_read u from n with
      | Some raw => raw :: chunks_from u (S from) rest
      | None => chunks_from u (S from) rest
      end
  | _ :: rest => chunks_from u (S from) rest
  end.

(** The log at the moment [read_values] calls [read]: the input was flushed
    and the request written. *)
Definition after_request (u : uart) (log : list event) : list event :=
  snd ((flush_input u ;;; write read_values_frame) log).

(** The [i]-th value of a measurement payload: four bytes from offset [4 * i],
    the most significant first. *)
Definition float_at (payload : bytes) (i : nat) : spec_float :=
  float_of_bits32
    (be32 (nth (4 * i) payload x00) (nth (4 * i + 1) payload x00)
          (nth (4 * i + 2) payload x00) (nth (4 * i + 3) payload x00)).

(** Reference for the decoding of a value.  IEEE 754 binary32: the number
    with the sign bit [negative], the biased exponent [exponent] (8 bits) and
    the fraction [fraction] (23 bits) is a zero or a subnormal number
    [fraction * 2^-149] for exponent 0, an infinity or a NaN for exponent
    255, and [(2^23 + fraction) * 2^(exponent - 150)] otherwise. *)
Definition ieee_binary32 (negative : bool) (exponent fraction : Z) : spec_float :=
  match exponent, fraction with
  | 0, 0 => S754_zero negative
  | 0, _ => S754_finite negative (Z.to_pos fraction) (-149)
  | 255, 0 => S754_infinity negative
  | 255, _ => S754_nan
  | _, _ => S754_finite negative (Z.to_pos (8388608 + fraction)) (exponent - 150)
  end.

(** The [i]-th value of a payload in big-endian order, field by field: the
    sign is the top bit of the first of its four bytes, the exponent the
    other seven bits of that byte and the top bit of the second, the fraction
    the other seven bits of the second byte and the last two bytes. *)
Definition big_endian_float_at (payload : bytes) (i : nat) : spec_float :=
  let v0 := byte_val (nth (4 * i) payload x00) in
  let v1 := byte_val (nth (4 * i + 1) payload x00) in
  let v2 := byte_val (nth (4 * i + 2) payload x00) in
  let v3 := byte_val (nth (4 * i + 3) payload x00) in
  ieee_binary32 (128 <=? v0) (2 * (v0 mod 128) + v1 / 128)
                (65536 * (v1 mod 128) + 256 * v2 + v3).

(** ** Some UARTs *)

Definition zeros (n : nat) : bytes := repeat x00 n.

(** A UART with nothing pending whose bounded reads are answered from a list
    of chunks, one per read, whatever the position of the call; [None] once
    the list is used up. *)
Fixpoint script_at (chunks : list (option bytes)) (reads : nat) : option bytes :=
  match chunks, reads with
  | [], _ => None
  | c :: _, O => c
  | _ :: rest, S reads' => script_at rest reads'
  end.

Definition scripted (first : nat) (chunks : list (option bytes)) : uart :=
  {| uart_any := fun _ => false;
     uart_read_all := fun _ => None;
     uart_read := fun i _ => script_at chunks (i - first) |}.

(** A UART that answers every bounded read with zero bytes. *)
Definition silent_uart : uart :=
  {| uart_any := fun _ => false;
     uart_read_all := fun _ => None;
     uart_read := fun _ _ => Some [] |}.

(** The response frame with new measurement values of the docstring of
    [read_values], all data bytes 0x00. *)
Definition empty_measurement : bytes :=
  [x7e; x00; x03; x00; x28] ++ zeros 40 ++ [xd4; x7e].

(** A measurement response whose first data byte is 0x7E, as the sensor sends
    it (0x7E stuffed as 0x7D 0x5E): 48 raw bytes. *)
Definition stuffed_measurement : bytes :=
  [x7e; x00; x03; x00; x28] ++ [x7d; x5e] ++ zeros 39 ++ [x56; x7e].

(** A measurement response whose first value is 1.0 (0x3F800000). *)
Definition unit_measurement : bytes :=
  [x7e; x00; x03; x00; x28] ++ [x3f; x80; x00; x00] ++ zeros 36 ++ [x15; x7e].

(** A firmware-version response for version 1.2, and a product-type
    response with the text of the docstring of [read_product_type]. *)
Definition firmware_response : bytes :=
  [x7e; x00; xd1; x00; x07; x01; x02; x00; x07; x00; x02; x00; x1b; x7e].

Definition product_type_response : bytes :=
  [x7e; x00; xd0; x00; x09] ++ list_byte_of_string "00080000" ++ [x00; x9e; x7e].

(** A UART that hands over [frame] in one piece to a read that asks for at
    least as many bytes, and times out otherwise. *)
Definition one_shot (frame : bytes) : uart :=
  {| uart_any := fun _ => false;
     uart_read_all := fun _ => None;
     uart_read := fun _ n => if len frame <=? n then Some frame else None |}.

(** A UART that delivers one byte per read. *)
Definition trickle_uart : uart :=
  {| uart_any := fun _ => true;
     uart_read_all := fun _ => Some [x00];
     uart_read := fun _ n => if 1 <=? n then Some [x00] else None |}.

(** The first 47 raw bytes of [stuffed_measurement], arriving in two chunks
    that part between 0x7D and 0x5E. *)
Definition split_chunks : list bytes :=
  [ [x7e; x00; x03; x00; x28; x7d]; x5e :: zeros 39 ++ [x56] ].

Definition split_uart : uart := scripted 0 (map Some split_chunks).

(** Two bytes arrive, then nothing. *)
Definition stalling_uart : uart := scripted 0 [Some [x7e; x00]; None].

(** The log at the moment a query makes its first bounded read: the input
    was flushed and [frame] written. *)
Definition request_sent (u : uart) (frame : bytes) (log : list event) : list event :=
  snd ((flush_input u ;;; write frame) log).

(** A UART that answers the read of 47 bytes of [read_values] with 48: the
    response [unit_measurement] and one byte more. *)
Definition oversized_uart : uart := scripted 2 [Some (unit_measurement ++ [x00])].


(** A chunk that holds an escape sequence whole, and the byte asked for after
    its reversal. *)
Definition escaped_uart : uart := scripted 0 [Some [x7d; x5e; x01]; Some [x02]].

(** 47 bytes with a measurement payload between a header and a trailer that
    are not those of a frame: no markers, no length, no checksum. *)
Definition unit_payload : bytes := [x3f; x80; x00; x00] ++ zeros 36.

Definition unframed_measurement : bytes := zeros 5 ++ unit_payload ++ zeros 2.

(** The first 14 raw bytes of a firmware-version response for version 17.2:
    the major version 0x11 travels as 0x7D 0x31. *)
Definition stuffed_firmware_response : bytes :=
  [x7e; x00; xd1; x00; x07; x7d; x31; x02; x00; x07; x00; x02; x00; x0b].

(** * Byte stuffing *)

Section Replace.

Variables a b c : byte.

Lemma bytes_pair_ind (P : bytes -> Prop) :
  P [] -> (forall x, P [x]) ->
  (forall x y l, P l -> P (y :: l) -> P (x :: y :: l)) ->
  forall l, P l.
Proof.
  intros Hnil Hone Hstep l.
  enough (P l /\ forall x, P (x :: l)) by tauto.
  induction l as [|y l [IHl IHyl]]; split; auto.
Qed.

Lemma replace_cons2 x y l :
  replace a b c (x :: y :: l) =
  if Byte.eqb x a && Byte.eqb y b then c :: replace a b c l
  else x :: replace a b c (y :: l).
Proof. reflexivity. Qed.

Lemma contains_cons2 x y l :
  contains a b (x :: y :: l) =
  (Byte.eqb x a && Byte.eqb y b) || contains a b (y :: l).
Proof. reflexivity. Qed.

Lemma replace_absent raw : contains a b raw = false -> replace a b c raw = raw.
Proof.
  induction raw as [| x | x y l _ IH] using bytes_pair_ind; auto.
  rewrite contains_cons2, replace_cons2.
  destruct (Byte.eqb x a && Byte.eqb y b); [discriminate|].
  rewrite orb_false_l. intros H. now rewrite IH.
Qed.

(** The guard [if pat in raw] changes nothing: [replace] alone does the same. *)
Lemma unstuff_step_replace raw : unstuff_step a b c raw = replace a b c raw.
Proof.
  unfold unstuff_step. destruct (contains a b raw) eqn:E; auto.
  symmetry. now apply replace_absent.
Qed.

Lemma replace_length raw :
  (List.length (replace a b c raw) <= List.length raw)%nat.
Proof.
  induction raw as [| x | x y l IH1 IH2] using bytes_pair_ind; auto.
  rewrite replace_cons2.
  destruct (Byte.eqb x a && Byte.eqb y b); simpl in *; lia.
Qed.

Lemma replace_nonempty raw : raw <> [] -> replace a b c raw <> [].
Proof.
  destruct raw as [|x [|y l]]; auto.
  intros _. rewrite replace_cons2.
  destruct (Byte.eqb x a && Byte.eqb y b); discriminate.
Qed.

End Replace.

Lemma reverse_byte_stuffing_replace raw :
  reverse_byte_stuffing raw =
  replace x7d x33 x13 (replace x7d x31 x11 (replace x7d x5d x7d (replace x7d x5e x7e raw))).
Proof. unfold reverse_byte_stuffing. now rewrite !unstuff_step_replace. Qed.

Lemma eqb_neq (x z : byte) : x <> z -> Byte.eqb x z = false.
Proof.
  intros H. destruct (Byte.eqb x z) eqn:E; auto.
  now apply Byte.byte_dec_bl in E.
Qed.

Lemma replace_head_kept (a b d x : byte) (l : bytes) :
  (forall w l', l = w :: l' -> Byte.eqb x a && Byte.eqb w b = false) ->
  replace a b d (x :: l) = x :: replace a b d l.
Proof.
  destruct l as [|w l']; intros H; [reflexivity|].
  rewrite replace_cons2, (H w l' eq_refl). reflexivity.
Qed.

Lemma contains_tail (a b x : byte) (l : bytes) :
  contains a b (x :: l) = false -> contains a b l = false.
Proof.
  destruct l as [|w l']; [reflexivity|].
  rewrite contains_cons2. now intros [_ H]%orb_false_iff.
Qed.

(** One replacement over a stuffed buffer.  The table [t] escapes [c] as
    0x7D [y]; replacing 0x7D [y] by [c] gives the buffer stuffed under the
    table without [c], as long as the payload has no 0x7D that is left
    unescaped and followed by [y]. *)
Section Pass.

Variable t : byte -> option byte.
Variables y c : byte.

Hypothesis escaped : t c = Some y.
Hypothesis code_not_7d : forall b z, t b = Some z -> z <> x7d.
Hypothesis code_of_c_only : forall b, t b = Some y -> b = c.

Lemma replace_pass (p : bytes) :
  (t x7d = None -> contains x7d y p = false) ->
  replace x7d y c (flat_map (stuff_with t) p) = flat_map (stuff_with (drop c t)) p.
Proof.
  assert (Hy : y <> x7d) by (apply (code_not_7d c), escaped).
  induction p as [|b p IH]; intros Hclash; [reflexivity|].
  assert (IH' : replace x7d y c (flat_map (stuff_with t) p) =
                flat_map (stuff_with (drop c t)) p).
  { apply IH. intros H. apply contains_tail with b. auto. }
  cbn [flat_map]. unfold stuff_with at 1 3, drop at 1.
  destruct (t b) as [z|] eqn:Eb.
  - cbn [app]. rewrite replace_cons2.
    replace (Byte.eqb x7d x7d) with true by reflexivity. cbn [andb].
    destruct (Byte.eqb z y) eqn:Ez.
    + apply Byte.byte_dec_bl in Ez. subst z.
      rewrite (code_of_c_only b Eb), (Byte.byte_dec_lb eq_refl). cbn [app].
      now rewrite IH'.
    + rewrite eqb_neq.
      * rewrite replace_head_kept, IH'; [reflexivity|].
        intros w l' _. rewrite eqb_neq; [reflexivity|]. now apply (code_not_7d b).
      * intros ->. rewrite escaped in Eb. injection Eb as <-.
        now rewrite (Byte.byte_dec_lb eq_refl) in Ez.
  - rewrite eqb_neq by (intros ->; congruence). cbn [app].
    rewrite replace_head_kept, IH'; [reflexivity|].
    intros w l' Hl.
    destruct (Byte.eqb b x7d) eqn:E7d; [|reflexivity].
    apply Byte.byte_dec_bl in E7d. subst b. cbn [andb].
    specialize (Hclash Eb).
    destruct p as [|b' p']; [discriminate|].
    rewrite contains_cons2, (Byte.byte_dec_lb eq_refl) in Hclash. cbn [andb] in Hclash.
    apply orb_false_iff in Hclash as [Hb' _].
    cbn [flat_map] in Hl. unfold stuff_with at 1 in Hl.
    destruct (t b') as [z'|]; injection Hl as <- _; [|exact Hb'].
    apply eqb_neq. congruence.
Qed.

End Pass.

Lemma stuff_byte_codes (b : byte) : stuff_byte b = stuff_with escape_codes b.
Proof.
  unfold stuff_byte, stuff_with, escape_codes.
  repeat match goal with |- context [Byte.eqb b ?k] => destruct (Byte.eqb b k) end;
    reflexivity.
Qed.

Ltac table_cases b :=
  unfold drop, escape_codes;
  repeat match goal with
         | |- context [Byte.eqb b ?k] =>
             let E := fresh "E" in
             destruct (Byte.eqb b k) eqn:E;
             [apply Byte.byte_dec_bl in E; try subst b |]
         end;
  try congruence; try discriminate.

(** Where the defect of C1 does not reach: a payload in which no 0x7D is
    followed by 0x31 or 0x33 survives stuffing and reversal. *)
Lemma roundtrip_without_clash (p : bytes) :
  contains x7d x31 p = false ->
  contains x7d x33 p = false ->
  reverse_byte_stuffing (forwardStuff p) = p.
Proof.
  intros H31 H33.
  rewrite reverse_byte_stuffing_replace. unfold forwardStuff.
  rewrite (flat_map_ext _ _ stuff_byte_codes).
  rewrite (replace_pass escape_codes x5e x7e);
    [| reflexivity | intros b z; table_cases b | intros b; table_cases b | discriminate].
  rewrite (replace_pass (drop x7e escape_codes) x5d x7d);
    [| reflexivity | intros b z; table_cases b | intros b; table_cases b | discriminate].
  rewrite (replace_pass (drop x7d (drop x7e escape_codes)) x31 x11);
    [| reflexivity | intros b z; table_cases b | intros b; table_cases b | auto].
  rewrite (replace_pass (drop x11 (drop x7d (drop x7e escape_codes))) x33 x13);
    [| reflexivity | intros b z; table_cases b | intros b; table_cases b | auto].
  rewrite <- (flat_map_ext (fun b => [b])).
  - clear. induction p; simpl; congruence.
  - intros b. unfold stuff_with. table_cases b; reflexivity.
Qed.

(** Reversal never makes a buffer longer. *)
Lemma reverse_byte_stuffing_len raw : len (reverse_byte_stuffing raw) <= len raw.
Proof.
  rewrite reverse_byte_stuffing_replace. unfold len.
  apply inj_le.
  repeat (etransitivity; [apply replace_length|]). reflexivity.
Qed.

(** Reversal of a buffer that holds a byte leaves a byte. *)
Lemma reverse_byte_stuffing_nonempty raw :
  1 <= len raw -> 1 <= len (reverse_byte_stuffing raw).
Proof.
  intros H. rewrite reverse_byte_stuffing_replace.
  assert (Hne : forall l : bytes, l <> [] -> 1 <= len l).
  { intros [|x l] Hl; [congruence|]. unfold len. cbn [List.length]. lia. }
  apply Hne. repeat apply replace_nonempty.
  intros ->. unfold len in H. cbn [List.length] in H. lia.
Qed.

(** C1 (code defect): the round trip through the SHDLC escaping is not the
    identity.  The payload 0x7D 0x31 is stuffed as 0x7D 0x5D 0x31; the second
    replacement of [reverse_byte_stuffing] turns this into 0x7D 0x31, which the
    third replacement then takes for an escape sequence and turns into 0x11. *)
Theorem roundtrip_breaks_on_7d_31 :
  forwardStuff [x7d; x31] = [x7d; x5d; x31] /\
  reverse_byte_stuffing (forwardStuff [x7d; x31]) = [x11] /\
  reverse_byte_stuffing (forwardStuff [x7d; x31]) <> [x7d; x31].
Proof. repeat split. discriminate. Qed.

(** * The accumulating read *)

Lemma skipn_length_app {A : Type} (l r : list A) : skipn (List.length l) (l ++ r) = r.
Proof. induction l; simpl; auto. Qed.

Section ReadLoop.

Variable u : uart.

(** One turn of the loop. *)
Lemma read_loop_eq fuel length data log :
  read_loop u fuel length data log =
  if length >? 0 then
    match fuel with
    | O => (OutOfFuel, log)
    | S fuel' =>
        match uart_read u (List.length log) length with
        | None => (Timeout, log ++ [EvRead length])
        | Some raw =>
            read_loop u fuel' (length - len (reverse_byte_stuffing raw))
              (data ++ reverse_byte_stuffing raw) (log ++ [EvRead length])
        end
    end
  else (Return data, log).
Proof.
  destruct fuel; simpl; destruct (length >? 0); try reflexivity.
  unfold bind, read_upto. destruct (uart_read u (List.length log) length); reflexivity.
Qed.

Ltac loop_step :=
  rewrite read_loop_eq;
  let E := fresh "Egt" in
  destruct (_ >? 0) eqn:E;
  [apply Z.gtb_lt in E | rewrite Z.gtb_ltb in E; apply Z.ltb_ge in E].

(** The loop only adds bounded reads to the log. *)
Lemma read_loop_log fuel : forall length data log,
  exists ns, snd (read_loop u fuel length data log) = log ++ map EvRead ns.
Proof.
  induction fuel as [|fuel IH]; intros length data log; loop_step;
    try (exists []; simpl; now rewrite app_nil_r).
  destruct (uart_read u (List.length log) length) as [raw|].
  - destruct (IH (length - len (reverse_byte_stuffing raw))
                 (data ++ reverse_byte_stuffing raw) (log ++ [EvRead length])) as [ns Hns].
    exists (length :: ns). rewrite Hns, <- app_assoc. reflexivity.
  - exists [length]. reflexivity.
Qed.

(** A timeout at any read the loop makes ends the loop with [None]. *)
Lemma read_loop_timeout fuel : forall length data log r log',
  read_loop u fuel length data log = (r, log') ->
  (exists i n, (List.length log <= i)%nat /\
               nth_error log' i = Some (EvRead n) /\ uart_read u i n = None) ->
  r = Timeout.
Proof.
  induction fuel as [|fuel IH]; intros length data log r log' Hrun (i & n & Hi & Hnth & Hnone);
    revert Hrun; loop_step.
  - intros [= <- <-]. assert (i < List.length log)%nat by (apply nth_error_Some; congruence). lia.
  - intros [= <- <-]. assert (i < List.length log)%nat by (apply nth_error_Some; congruence). lia.
  - destruct (uart_read u (List.length log) length) as [raw|] eqn:Eraw.
    + intros Hrun.
      assert (Hext : exists ns, log' = (log ++ [EvRead length]) ++ map EvRead ns).
      { destruct (read_loop_log fuel (length - len (reverse_byte_stuffing raw))
                    (data ++ reverse_byte_stuffing raw) (log ++ [EvRead length])) as [ns Hns].
        exists ns. now rewrite Hrun in Hns. }
      destruct Hext as [ns Hext].
      apply (IH _ _ _ _ _ Hrun). exists i, n. repeat split; auto.
      rewrite length_app. simpl.
      destruct (Nat.eq_dec i (List.length log)) as [->|]; [|lia].
      rewrite Hext, <- app_assoc, nth_error_app2, Nat.sub_diag in Hnth by lia.
      simpl in Hnth. injection Hnth as <-. congruence.
    + now intros [= <- _].
  - intros [= <- <-]. assert (i < List.length log)%nat by (apply nth_error_Some; congruence). lia.
Qed.

(** While every read returns at most what was asked for, the bytes
    accumulated and the bytes still missing add up to the same number. *)
Lemma read_loop_exact (Hmost : at_most_requested u) fuel : forall length data log d log',
  0 <= length ->
  read_loop u fuel length data log = (Return d, log') ->
  len d = len data + length.
Proof.
  induction fuel as [|fuel IH]; intros length data log d log' Hlen; loop_step;
    try discriminate; try (intros [= <- _]; lia).
  destruct (uart_read u (List.length log) length) as [raw|] eqn:Eraw; [|discriminate].
  intros Hrun. apply IH in Hrun.
  - rewrite Hrun. unfold len. rewrite length_app. lia.
  - pose proof (reverse_byte_stuffing_len raw).
    pose proof (Hmost _ _ _ (Z.lt_le_incl _ _ Egt) Eraw). lia.
Qed.

(** While no read returns zero bytes, [length] turns of the loop are enough. *)
Lemma read_loop_enough_fuel (Hsome : never_empty u) fuel : forall length data log,
  (Z.to_nat length <= fuel)%nat ->
  fst (read_loop u fuel length data log) <> OutOfFuel.
Proof.
  induction fuel as [|fuel IH]; intros length data log Hfuel; loop_step;
    try discriminate; try lia.
  pose proof (Hsome (List.length log) length (Z.lt_le_incl _ _ Egt)) as H.
  destruct (uart_read u (List.length log) length) as [raw|]; [|discriminate].
  apply IH. pose proof (reverse_byte_stuffing_nonempty raw). lia.
Qed.

(** What the loop returns is the reversal of each chunk on its own, one
    after the other. *)
Lemma read_loop_chunks fuel : forall length data log d log',
  read_loop u fuel length data log = (Return d, log') ->
  d = data ++ List.concat (map reverse_byte_stuffing
                        (chunks_from u (List.length log) (skipn (List.length log) log'))).
Proof.
  induction fuel as [|fuel IH]; intros length data log d log'; loop_step;
    try discriminate;
    try (intros [= <- <-]; rewrite skipn_all; simpl; now rewrite app_nil_r).
  destruct (uart_read u (List.length log) length) as [raw|] eqn:Eraw; [|discriminate].
  intros Hrun.
  destruct (read_loop_log fuel (length - len (reverse_byte_stuffing raw))
              (data ++ reverse_byte_stuffing raw) (log ++ [EvRead length])) as [ns Hns].
  rewrite Hrun in Hns. simpl in Hns.
  apply IH in Hrun. rewrite Hrun, <- app_assoc. f_equal.
  rewrite Hns, skipn_length_app, <- app_assoc, skipn_length_app.
  rewrite length_app, Nat.add_1_r. simpl. now rewrite Eraw.
Qed.

End ReadLoop.

(** C2 (code defect): an escape sequence that two chunks share is not
    reversed.  The sensor sends [stuffed_measurement]; its first 47 raw bytes
    arrive as 6 bytes ending in 0x7D and 41 bytes starting with 0x5E, each
    within the bound of its read.  [read 47] reverses each chunk on its own
    and returns 47 bytes that still hold 0x7D 0x5E, where the reversal of the
    chunks put together holds 0x7E. *)
Theorem read_misses_escape_across_chunks :
  read split_uart 47 47 [] =
    (Return ([x7e; x00; x03; x00; x28; x7d; x5e] ++ zeros 39 ++ [x56]),
     [EvRead 47; EvRead 41]) /\
  map len split_chunks = [6; 41] /\
  reverse_byte_stuffing (List.concat split_chunks) =
    [x7e; x00; x03; x00; x28; x7e] ++ zeros 39 ++ [x56] /\
  fst (read split_uart 47 47 []) <> Return (reverse_byte_stuffing (List.concat split_chunks)).
Proof. repeat split. vm_compute. discriminate. Qed.

Lemma silent_read_spins fuel : forall data log,
  fst (read_loop silent_uart fuel 1 data log) = OutOfFuel.
Proof.
  induction fuel as [|fuel IH]; intros data log; rewrite read_loop_eq; simpl.
  - reflexivity.
  - apply IH.
Qed.

(** C3 (counterexample): the transport contract allows a read to return zero
    bytes; on a UART that always does, the loop of [read 1] has not ended
    after any number of turns. *)
Lemma read_spins_on_empty_reads :
  transport_contract silent_uart /\ ~ read_terminates silent_uart 1 [].
Proof.
  split.
  - intros i n Hn. simpl. unfold len. simpl. lia.
  - intros [fuel Hfuel]. apply Hfuel. apply silent_read_spins.
Qed.

(** C3 (amended): [read] terminates for every length on every UART whose
    reads return at least one byte, or time out. *)
Theorem read_terminates_on_nonempty_reads (u : uart) (length : Z) (log : list event) :
  never_empty u -> read_terminates u length log.
Proof.
  intros Hsome. exists (Z.to_nat length). now apply read_loop_enough_fuel.
Qed.

Lemma trickle_never_empty : never_empty trickle_uart.
Proof.
  intros i n Hn. simpl. destruct (1 <=? n) eqn:E; auto.
  apply Z.leb_le in E. unfold len. simpl. lia.
Defined.

Lemma trickle_at_most_requested : at_most_requested trickle_uart.
Proof.
  intros i n raw Hn. simpl. destruct (1 <=? n) eqn:E; [|discriminate].
  apply Z.leb_le in E. intros [= <-]. unfold len. simpl. lia.
Defined.

Lemma read_terminates_on_trickle : read_terminates trickle_uart 3 [].
Proof. apply (read_terminates_on_nonempty_reads trickle_uart 3 []), trickle_never_empty. Defined.

(** C4: when a read made by the loop of [read] times out, [read] returns
    [None]; what the earlier reads brought is not returned. *)
Theorem read_timeout_returns_none (u : uart) (fuel : nat) (length : Z)
    (log : list event) (r : outcome bytes) (log' : list event) :
  read u fuel length log = (r, log') ->
  (exists i n, (List.length log <= i)%nat /\
               nth_error log' i = Some (EvRead n) /\ uart_read u i n = None) ->
  r = Timeout.
Proof. unfold read. apply read_loop_timeout. Qed.

Lemma read_timeout_on_stall :
  uart_read stalling_uart 0 47 = Some [x7e; x00] /\
  fst (read stalling_uart 5 47 []) = Timeout.
Proof.
  split; [reflexivity|].
  apply (read_timeout_returns_none stalling_uart 5 47 [] _ [EvRead 47; EvRead 45]).
  - reflexivity.
  - exists 1%nat, 45. repeat split. simpl. lia.
Defined.

(** C9: on a UART whose reads return at most what they were asked for, a
    buffer returned by [read length], [length >= 0], holds exactly [length]
    bytes. *)
Theorem read_returns_exactly_length (u : uart) (fuel : nat) (length : Z)
    (log : list event) (data : bytes) (log' : list event) :
  0 <= length ->
  at_most_requested u ->
  read u fuel length log = (Return data, log') ->
  len data = length.
Proof.
  intros Hlen Hmost Hrun. unfold read in Hrun.
  apply (read_loop_exact u Hmost) in Hrun; auto.
Qed.

Lemma read_three_from_trickle :
  read trickle_uart 3 3 [] = (Return [x00; x00; x00], [EvRead 3; EvRead 2; EvRead 1]) /\
  len [x00; x00; x00] = 3.
Proof.
  split; [reflexivity|].
  apply (read_returns_exactly_length trickle_uart 3 3 [] _ [EvRead 3; EvRead 2; EvRead 1]).
  - lia.
  - exact trickle_at_most_requested.
  - reflexivity.
Defined.

(** * The calls of the methods *)

Lemma writes_app (l r : list event) : writes (l ++ r) = writes l ++ writes r.
Proof. apply flat_map_app. Qed.

Lemma writes_reads (ns : list Z) : writes (map EvRead ns) = [].
Proof. induction ns; auto. Qed.

Lemma flush_input_fresh (u : uart) :
  flush_input u [] = (tt, if uart_any u 0 then [EvAny; EvReadAll] else [EvAny]).
Proof. unfold flush_input, bind, any. simpl. destruct (uart_any u 0); reflexivity. Qed.

Lemma writes_flush_input (u : uart) : writes (snd (flush_input u [])) = [].
Proof. rewrite flush_input_fresh. destruct (uart_any u 0); reflexivity. Qed.

(** [read_values] in terms of the run of [read] it contains. *)
Lemma read_values_eq (u : uart) (fuel : nat) (log : list event) :
  read_values u fuel log =
  let (r, log') := read u fuel 47 (after_request u log) in
  (match r with
   | Return raw => Return (decode_values (slice 5 2 raw))
   | Timeout => Timeout
   | Raised => Raised
   | OutOfFuel => OutOfFuel
   end, log').
Proof.
  unfold read_values, after_request, bind.
  destruct (flush_input u log) as [[] log1]. simpl.
  destruct (read u fuel 47 (log1 ++ [EvWrite read_values_frame])) as [[raw| | |] log2];
    reflexivity.
Qed.

Ltac single_read :=
  repeat match goal with
         | |- context [match ?x with _ => _ end] => destruct x
         end;
  simpl; now rewrite <- app_assoc.

(** The calls of every method: the two commands write and flush the output;
    the four queries flush the input, write, and then only read. *)
Lemma calls_shape (u : uart) (fuel : nat) (op : operation) :
  exists ns,
    calls u fuel op =
    if reads_response op
    then snd (flush_input u []) ++ EvWrite (command_frame op) :: map EvRead ns
    else [EvWrite (command_frame op); EvFlush].
Proof.
  destruct op; simpl.
  - exists []. reflexivity.
  - exists []. reflexivity.
  - rewrite read_values_eq. unfold after_request, bind.
    destruct (flush_input u []) as [[] log1] eqn:Eflush. simpl.
    destruct (read_loop_log u fuel 47 [] (log1 ++ [EvWrite read_values_frame])) as [ns Hns].
    exists ns. fold (read u fuel 47 (log1 ++ [EvWrite read_values_frame])) in Hns.
    destruct (read u fuel 47 (log1 ++ [EvWrite read_values_frame])) as [r log2].
    simpl in *. now rewrite Hns, <- app_assoc.
  - exists [24]. unfold read_product_type, read_text, bind.
    destruct (flush_input u []) as [[] log1]. simpl. single_read.
  - exists [24]. unfold read_serial_number, read_text, bind.
    destruct (flush_input u []) as [[] log1]. simpl. single_read.
  - exists [14]. unfold read_firmware_version, bind.
    destruct (flush_input u []) as [[] log1]. simpl. single_read.
Qed.

(** Every method writes one frame, its own. *)
Lemma writes_calls (u : uart) (fuel : nat) (op : operation) :
  writes (calls u fuel op) = [command_frame op].
Proof.
  destruct (calls_shape u fuel op) as [ns ->].
  destruct (reads_response op); [|reflexivity].
  rewrite writes_app, writes_flush_input. simpl. now rewrite writes_reads.
Qed.

(** C5: in every frame a method writes, the byte before the closing 0x7E is
    the complement of the low byte of the sum of the bytes between the
    opening 0x7E and that byte. *)
Theorem outbound_checksum (u : uart) (fuel : nat) (op : operation) (frame : bytes) :
  In frame (writes (calls u fuel op)) ->
  exists body chk, frame = x7e :: body ++ [chk; x7e] /\ byte_val chk = checksum body.
Proof.
  rewrite writes_calls. intros [<- | []].
  exists (firstn (List.length (command_frame op) - 3) (tl (command_frame op))).
  exists (nth (List.length (command_frame op) - 2) (command_frame op) x00).
  destruct op; split; reflexivity.
Qed.

Lemma start_frame_checksum :
  exists body chk, start_frame = x7e :: body ++ [chk; x7e] /\ byte_val chk = checksum body.
Proof.
  apply (outbound_checksum silent_uart 0 Start start_frame). simpl. auto.
Defined.

(** C6 (counterexample): the byte after the length byte of the frame of
    [read_product_type] is 0x00, not 0x01; 0x01 is the length byte. *)
Lemma product_type_argument_is_not_01 :
  writes (calls silent_uart 0 ReadProductType) = [[x7e; x00; xd0; x01; x00; x2e; x7e]] /\
  map frame_argument (writes (calls silent_uart 0 ReadProductType)) <> [Some x01].
Proof. split; [reflexivity | discriminate]. Qed.

(** C6 (amended): both device-information frames carry the command 0xD0 and
    the length 0x01; the argument byte after the length is 0x00 for
    [read_product_type] and 0x03 for [read_serial_number]. *)
Theorem device_information_frames (u : uart) (fuel : nat) :
  map (fun f => (frame_command f, frame_length f, frame_argument f))
      (writes (calls u fuel ReadProductType)) = [(Some xd0, Some x01, Some x00)] /\
  map (fun f => (frame_command f, frame_length f, frame_argument f))
      (writes (calls u fuel ReadSerialNumber)) = [(Some xd0, Some x01, Some x03)].
Proof. rewrite !writes_calls. split; reflexivity. Qed.

(** C8 (counterexample): [start] writes its frame as its first call; no call
    of [flush_input] comes before. *)
Lemma start_does_not_flush_input :
  calls silent_uart 0 Start = [EvWrite start_frame; EvFlush] /\
  ~ flushes_then_writes silent_uart (calls silent_uart 0 Start).
Proof.
  split; [reflexivity|]. intros (frame & rest & H). discriminate H.
Qed.

(** C8 (amended): the four methods that read a response call [flush_input]
    and then write their frame; [start] and [stop] write their frame first
    and flush the output. *)
Theorem flush_input_precedes_request (u : uart) (fuel : nat) (op : operation) :
  match op with
  | Start | Stop => calls u fuel op = [EvWrite (command_frame op); EvFlush]
  | _ => flushes_then_writes u (calls u fuel op)
  end.
Proof.
  destruct (calls_shape u fuel op) as [ns H].
  destruct op; simpl in H; auto; eexists _, (map EvRead ns); exact H.
Qed.

(** * Decoding the measurement *)

Lemma float_at_shift b0 b1 b2 b3 (rest : bytes) (i : nat) :
  float_at (b0 :: b1 :: b2 :: b3 :: rest) (S i) = float_at rest i.
Proof.
  unfold float_at.
  replace (4 * S i)%nat with (S (S (S (S (4 * i))))) by lia.
  replace (S (S (S (S (4 * i)))) + 1)%nat with (S (S (S (S (4 * i + 1))))) by lia.
  replace (S (S (S (S (4 * i)))) + 2)%nat with (S (S (S (S (4 * i + 2))))) by lia.
  replace (S (S (S (S (4 * i)))) + 3)%nat with (S (S (S (S (4 * i + 3))))) by lia.
  reflexivity.
Qed.

(** A buffer that is big enough unpacks into the values of its first bytes,
    four bytes each, in order. *)
Lemma unpack_floats_enough (n : nat) : forall bs : bytes,
  (4 * n <= List.length bs)%nat ->
  unpack_floats n bs = Some (map (float_at bs) (seq 0 n)).
Proof.
  induction n as [|n IH]; intros bs Hlen; [reflexivity|].
  destruct bs as [|b0 [|b1 [|b2 [|b3 rest]]]]; simpl in Hlen; try lia.
  cbn [unpack_floats]. rewrite IH by lia.
  cbn [option_map seq map]. do 2 f_equal.
  rewrite <- seq_shift, map_map.
  apply map_ext. intros i. symmetry. apply float_at_shift.
Qed.

Lemma unpack_floats_size (n : nat) : forall bs : bytes,
  List.length bs = (4 * n)%nat ->
  unpack_floats n bs = Some (map (float_at bs) (seq 0 n)).
Proof. intros bs Hlen. apply unpack_floats_enough. lia. Qed.

(** A buffer that is too small is refused. *)
Lemma unpack_floats_short (n : nat) : forall bs : bytes,
  (List.length bs < 4 * n)%nat -> unpack_floats n bs = None.
Proof.
  induction n as [|n IH]; intros bs Hlen; [lia|].
  destruct bs as [|b0 [|b1 [|b2 [|b3 rest]]]]; try reflexivity.
  cbn [unpack_floats]. rewrite IH; [reflexivity|].
  simpl in Hlen. lia.
Qed.

Lemma byte_val_range (b : byte) : 0 <= byte_val b < 256.
Proof. unfold byte_val. pose proof (Byte.to_N_bounded b). lia. Qed.

(** The cases of [ieee_binary32], as tests. *)
Lemma ieee_binary32_cases (s : bool) (e m : Z) :
  ieee_binary32 s e m =
  if e =? 0 then
    if m =? 0 then S754_zero s else S754_finite s (Z.to_pos m) (-149)
  else if e =? 255 then
    if m =? 0 then S754_infinity s else S754_nan
  else S754_finite s (Z.to_pos (8388608 + m)) (e - 150).
Proof.
  destruct e as [|p|p]; [destruct m; reflexivity | | reflexivity].
  do 7 (destruct p as [p|p|]; try reflexivity).
  destruct p; try reflexivity; destruct m; reflexivity.
Qed.

(** The three fields of the word made of four bytes, the most significant
    first. *)
Section Fields.

Variables b0 b1 b2 b3 : byte.

Ltac byte_ranges :=
  pose proof (byte_val_range b0); pose proof (byte_val_range b1);
  pose proof (byte_val_range b2); pose proof (byte_val_range b3);
  unfold be32;
  change (2 ^ 31) with 2147483648; change (2 ^ 24) with 16777216;
  change (2 ^ 23) with 8388608; change (2 ^ 16) with 65536;
  change (2 ^ 8) with 256.

Lemma be32_sign : Z.testbit (be32 b0 b1 b2 b3) 31 = (128 <=? byte_val b0).
Proof.
  rewrite Z.testbit_odd, Z.shiftr_div_pow2 by lia. byte_ranges.
  destruct (128 <=? byte_val b0) eqn:E; [apply Z.leb_le in E | apply Z.leb_gt in E].
  - replace (_ / 2147483648) with 1; [reflexivity|].
    Z.div_mod_to_equations. lia.
  - replace (_ / 2147483648) with 0; [reflexivity|].
    Z.div_mod_to_equations. lia.
Qed.

Lemma be32_exponent :
  Z.land (Z.shiftr (be32 b0 b1 b2 b3) 23) 255 =
  2 * (byte_val b0 mod 128) + byte_val b1 / 128.
Proof.
  change 255 with (Z.ones 8).
  rewrite Z.land_ones, Z.shiftr_div_pow2 by lia. byte_ranges.
  Z.div_mod_to_equations. lia.
Qed.

Lemma be32_fraction :
  Z.land (be32 b0 b1 b2 b3) 8388607 =
  65536 * (byte_val b1 mod 128) + 256 * byte_val b2 + byte_val b3.
Proof.
  change 8388607 with (Z.ones 23).
  rewrite Z.land_ones by lia. byte_ranges.
  Z.div_mod_to_equations. lia.
Qed.

(** The decoding of a word agrees with the reading of IEEE 754 binary32
    field by field. *)
Lemma float_of_bits32_fields :
  float_of_bits32 (be32 b0 b1 b2 b3) =
  ieee_binary32 (128 <=? byte_val b0)
                (2 * (byte_val b0 mod 128) + byte_val b1 / 128)
                (65536 * (byte_val b1 mod 128) + 256 * byte_val b2 + byte_val b3).
Proof.
  unfold float_of_bits32. cbv zeta.
  rewrite be32_sign, be32_exponent, be32_fraction, ieee_binary32_cases.
  now rewrite (Z.add_comm 8388608).
Qed.

End Fields.

Lemma float_at_big_endian (payload : bytes) (i : nat) :
  float_at payload i = big_endian_float_at payload i.
Proof. unfold float_at, big_endian_float_at. apply float_of_bits32_fields. Qed.

Lemma slice_length (start back : nat) (raw : bytes) :
  List.length (slice start back raw) = (List.length raw - back - start)%nat.
Proof. unfold slice. rewrite length_firstn, length_skipn. lia. Qed.

(** C7 (counterexample): a payload of more than 40 bytes is not refused.
    [struct.unpack] decodes its first 40 bytes and the [except] branch is not
    taken: the 41 bytes that start with 1.0 give 1.0 and nine zeros, not ten
    zeros, and so does [read_values] when the UART answers the read of 47
    bytes with 48. *)
Lemma oversized_payload_is_decoded :
  List.length (unit_payload ++ [x15]) = 41%nat /\
  decode_values (unit_payload ++ [x15]) =
    S754_finite false 8388608 (-23) :: repeat (S754_zero false) 9 /\
  decode_values (unit_payload ++ [x15]) <> zero_tuple /\
  slice 5 2 (unit_measurement ++ [x00]) = unit_payload ++ [x15] /\
  read_values oversized_uart 1 [] =
    (Return (S754_finite false 8388608 (-23) :: repeat (S754_zero false) 9),
     [EvAny; EvWrite read_values_frame; EvRead 47]).
Proof. repeat split. discriminate. Qed.

(** C7 (amended): the decoding of [read_values] fails closed on a payload
    that is too short, and only there.  A payload of fewer than 40 bytes
    gives the tuple of ten zeros; a payload of 40 bytes or more gives the ten
    values of its first 40 bytes, each the IEEE 754 binary32 number of four
    bytes in big-endian order; and [read_values] returns the decoding of the
    payload [raw[5:-2]] of the buffer that [read] returned, whatever that
    buffer is: no error leaves the method. *)
Theorem measurement_decoding_fails_closed :
  (forall payload, (List.length payload < 40)%nat -> decode_values payload = zero_tuple) /\
  (forall payload, (40 <= List.length payload)%nat ->
     decode_values payload = map (big_endian_float_at payload) (seq 0 10)) /\
  (forall u fuel log raw log',
     read u fuel 47 (after_request u log) = (Return raw, log') ->
     read_values u fuel log = (Return (decode_values (slice 5 2 raw)), log')).
Proof.
  split; [|split].
  - intros payload H. unfold decode_values. now rewrite unpack_floats_short.
  - intros payload H. unfold decode_values. rewrite unpack_floats_enough by exact H.
    apply map_ext. intros i. apply float_at_big_endian.
  - intros u fuel log raw log' H. now rewrite read_values_eq, H.
Qed.

Lemma measurement_decoding_examples :
  decode_values [x3f; x80] = zero_tuple /\
  decode_values (slice 5 2 unit_measurement) =
    S754_finite false 8388608 (-23) :: repeat (S754_zero false) 9 /\
  read_values (one_shot unit_measurement) 1 [] =
    (Return (S754_finite false 8388608 (-23) :: repeat (S754_zero false) 9),
     [EvAny; EvWrite read_values_frame; EvRead 47]).
Proof.
  destruct measurement_decoding_fails_closed as (Hshort & Hright & Hread).
  split; [|split].
  - apply Hshort. simpl. lia.
  - rewrite Hright; [reflexivity | simpl; lia].
  - rewrite (Hread (one_shot unit_measurement) 1%nat [] unit_measurement
               [EvAny; EvWrite read_values_frame; EvRead 47]); reflexivity.
Defined.

Lemma one_shot_at_most_requested (frame : bytes) : at_most_requested (one_shot frame).
Proof.
  intros i n raw Hn. simpl. destruct (len frame <=? n) eqn:E; [|discriminate].
  apply Z.leb_le in E. now intros [= <-].
Defined.

(** C10: on a UART whose reads return at most what they were asked for, the
    zero tuple of the [except] branch is never what [read_values] returns:
    the buffer of a [read 47] that succeeded has 47 bytes, its payload
    [raw[5:-2]] has 40, and [struct.unpack] accepts it. *)
Theorem zero_fallback_unreachable (u : uart) (fuel : nat) (log : list event)
    (values : list spec_float) (log' : list event) :
  at_most_requested u ->
  read_values u fuel log = (Return values, log') ->
  exists raw,
    read u fuel 47 (after_request u log) = (Return raw, log') /\
    len raw = 47 /\
    List.length (slice 5 2 raw) = 40%nat /\
    unpack_floats 10 (slice 5 2 raw) = Some values.
Proof.
  intros Hmost. rewrite read_values_eq.
  destruct (read u fuel 47 (after_request u log)) as [[raw| | |] log1] eqn:Eread;
    try discriminate.
  intros [= <- <-]. exists raw.
  assert (Hlen : len raw = 47).
  { unfold read in Eread. apply (read_loop_exact u Hmost) in Eread; [exact Eread | lia]. }
  assert (Hpay : List.length (slice 5 2 raw) = 40%nat).
  { rewrite slice_length. unfold len in Hlen. lia. }
  repeat split; auto.
  unfold decode_values. now rewrite (unpack_floats_size 10).
Qed.

Lemma unit_measurement_is_unpacked :
  exists raw,
    read (one_shot unit_measurement) 1 47 (after_request (one_shot unit_measurement) []) =
      (Return raw, [EvAny; EvWrite read_values_frame; EvRead 47]) /\
    len raw = 47 /\
    List.length (slice 5 2 raw) = 40%nat /\
    unpack_floats 10 (slice 5 2 raw) =
      Some (S754_finite false 8388608 (-23) :: repeat (S754_zero false) 9).
Proof.
  apply (zero_fallback_unreachable (one_shot unit_measurement) 1 []).
  - apply one_shot_at_most_requested.
  - reflexivity.
Defined.

(** * The behaviour on the frames of the data sheet *)

(** A buffer that holds none of the four sequences is returned as it is. *)
Lemma reverse_byte_stuffing_noop (raw : bytes) :
  contains x7d x5e raw = false -> contains x7d x5d raw = false ->
  contains x7d x31 raw = false -> contains x7d x33 raw = false ->
  reverse_byte_stuffing raw = raw.
Proof.
  intros H1 H2 H3 H4. unfold reverse_byte_stuffing, unstuff_step.
  now rewrite H1, H2, H3, H4.
Qed.

Example reverse_each_sequence :
  map reverse_byte_stuffing [[x7d; x5e]; [x7d; x5d]; [x7d; x31]; [x7d; x33]] =
  [[x7e]; [x7d]; [x11]; [x13]].
Proof. reflexivity. Qed.

Example roundtrip_of_reserved_bytes :
  reverse_byte_stuffing (forwardStuff [x7e; x7d; x5e; x11; x13; x7d]) =
  [x7e; x7d; x5e; x11; x13; x7d].
Proof. now apply roundtrip_without_clash. Qed.

Example stuffed_measurement_reversed :
  List.concat split_chunks = firstn 47 stuffed_measurement /\
  reverse_byte_stuffing stuffed_measurement =
    [x7e; x00; x03; x00; x28; x7e] ++ zeros 39 ++ [x56; x7e] /\
  checksum (x00 :: x03 :: x00 :: x28 :: x7e :: zeros 39) = byte_val x56.
Proof. repeat split. Qed.

Example read_two_short_chunks :
  read (scripted 0 [Some [x01; x02]; Some [x03]]) 3 3 [] =
  (Return [x01; x02; x03], [EvRead 3; EvRead 1]).
Proof. reflexivity. Qed.

Example read_nothing_at_first :
  read (scripted 0 [None]) 3 47 [] = (Timeout, [EvRead 47]).
Proof. reflexivity. Qed.

Example read_values_empty_measurement :
  read_values (one_shot empty_measurement) 1 [] =
  (Return zero_tuple, [EvAny; EvWrite read_values_frame; EvRead 47]).
Proof. reflexivity. Qed.

Example read_values_stalled :
  read_values (scripted 2 [Some [x7e; x00]; None]) 5 [] =
  (Timeout, [EvAny; EvWrite read_values_frame; EvRead 47; EvRead 45]).
Proof. reflexivity. Qed.

Example read_values_pending_input :
  snd (read_values trickle_uart 47 []) =
  [EvAny; EvReadAll; EvWrite read_values_frame] ++ map EvRead (map Z.of_nat (rev (seq 1 47))).
Proof. reflexivity. Qed.

Example read_firmware_version_1_2 :
  read_firmware_version (one_shot firmware_response) [] =
  (Return "1.2"%string, [EvAny; EvWrite read_firmware_version_frame; EvRead 14]).
Proof. reflexivity. Qed.

Example read_product_type_00080000 :
  read_product_type (one_shot product_type_response) [] =
  (Return "00080000"%string, [EvAny; EvWrite read_product_type_frame; EvRead 24]).
Proof. reflexivity. Qed.

Example str_of_signed_bytes :
  map str (map signed_byte [x00; x7f; x80; xff]) = ["0"; "127"; "-128"; "-1"]%string.
Proof. reflexivity. Qed.

(** * Further properties of the reversal *)

Section ReplaceMore.

Variables a b c : byte.

(** A replacement that finds its sequence makes the buffer shorter. *)
Lemma replace_shorter raw :
  contains a b raw = true ->
  (List.length (replace a b c raw) < List.length raw)%nat.
Proof.
  induction raw as [| x | x y l _ IH] using bytes_pair_ind; try discriminate.
  rewrite contains_cons2, replace_cons2.
  destruct (Byte.eqb x a && Byte.eqb y b).
  - intros _. pose proof (replace_length a b c l). simpl. lia.
  - rewrite orb_false_l. intros H. apply IH in H. simpl in *. lia.
Qed.

Lemma unstuff_step_length raw :
  (List.length (unstuff_step a b c raw) <= List.length raw)%nat.
Proof. rewrite unstuff_step_replace. apply replace_length. Qed.

(** A step either leaves the buffer alone or shortens it. *)
Lemma unstuff_step_cases raw :
  (contains a b raw = false /\ unstuff_step a b c raw = raw) \/
  (contains a b raw = true /\
   (List.length (unstuff_step a b c raw) < List.length raw)%nat).
Proof.
  unfold unstuff_step. destruct (contains a b raw) eqn:E; [right | left]; split; auto.
  now apply replace_shorter.
Qed.

(** What a replacement starts with: the first byte, or the replacing byte. *)
Lemma replace_head y l :
  exists rest, replace a b c (y :: l) = y :: rest \/ replace a b c (y :: l) = c :: rest.
Proof.
  destruct l as [|w l]; [exists []; now left|].
  rewrite replace_cons2. destruct (Byte.eqb y a && Byte.eqb w b); eauto.
Qed.

Lemma contains_cons_other (p q x : byte) (l : bytes) :
  Byte.eqb x p = false -> contains p q (x :: l) = contains p q l.
Proof.
  intros H. destruct l as [|w l]; [reflexivity|].
  rewrite contains_cons2, H. reflexivity.
Qed.

(** A replacement by a byte that is in neither place of the sequence [p q]
    does not bring that sequence about. *)
Lemma replace_keeps_absent (p q : byte) raw :
  Byte.eqb c p = false -> Byte.eqb c q = false ->
  contains p q raw = false -> contains p q (replace a b c raw) = false.
Proof.
  intros Hcp Hcq.
  induction raw as [| x | x y l IH1 IH2] using bytes_pair_ind; auto.
  intros H. pose proof (contains_tail _ _ _ _ H) as Hyl.
  pose proof (contains_tail _ _ _ _ Hyl) as Hl.
  rewrite contains_cons2 in H. apply orb_false_iff in H as [Hxy _].
  rewrite replace_cons2. destruct (Byte.eqb x a && Byte.eqb y b).
  - rewrite contains_cons_other; auto.
  - specialize (IH2 Hyl). destruct (replace_head y l) as [rest [E | E]];
      rewrite E in *; rewrite contains_cons2, IH2, orb_false_r; auto.
    rewrite Hcq. apply andb_false_r.
Qed.

(** After a replacement by a byte that is in neither place of its own
    sequence, the sequence is gone. *)
Lemma replace_removes raw :
  Byte.eqb c a = false -> Byte.eqb c b = false ->
  contains a b (replace a b c raw) = false.
Proof.
  intros Hca Hcb.
  induction raw as [| x | x y l IH1 IH2] using bytes_pair_ind; auto.
  rewrite replace_cons2. destruct (Byte.eqb x a && Byte.eqb y b) eqn:Exy.
  - rewrite contains_cons_other; auto.
  - destruct (replace_head y l) as [rest [E | E]];
      rewrite E in *; rewrite contains_cons2, IH2, orb_false_r; auto.
    rewrite Hcb. apply andb_false_r.
Qed.

End ReplaceMore.

(** X1: [reverse_byte_stuffing] returns a buffer as it is exactly when the
    buffer holds none of the four two-byte sequences. *)
Theorem reverse_byte_stuffing_fixed_points (raw : bytes) :
  reverse_byte_stuffing raw = raw <->
  contains x7d x5e raw = false /\ contains x7d x5d raw = false /\
  contains x7d x31 raw = false /\ contains x7d x33 raw = false.
Proof.
  split.
  - unfold reverse_byte_stuffing. cbv zeta.
    pose proof (unstuff_step_length x7d x5e x7e raw) as L1.
    pose proof (unstuff_step_cases x7d x5e x7e raw) as K1.
    remember (unstuff_step x7d x5e x7e raw) as r1 eqn:R1.
    pose proof (unstuff_step_length x7d x5d x7d r1) as L2.
    pose proof (unstuff_step_cases x7d x5d x7d r1) as K2.
    remember (unstuff_step x7d x5d x7d r1) as r2 eqn:R2.
    pose proof (unstuff_step_length x7d x31 x11 r2) as L3.
    pose proof (unstuff_step_cases x7d x31 x11 r2) as K3.
    remember (unstuff_step x7d x31 x11 r2) as r3 eqn:R3.
    pose proof (unstuff_step_length x7d x33 x13 r3) as L4.
    pose proof (unstuff_step_cases x7d x33 x13 r3) as K4.
    intros H. rewrite H in L4, K4.
    destruct K1 as [[C1 E1] | [_ S1]]; [|lia]. subst r1. rewrite E1 in *.
    destruct K2 as [[C2 E2] | [_ S2]]; [|lia]. subst r2.
    destruct K3 as [[C3 E3] | [_ S3]]; [|lia]. subst r3.
    destruct K4 as [[C4 E4] | [_ S4]]; [|lia].
    auto.
  - intros (H1 & H2 & H3 & H4). unfold reverse_byte_stuffing, unstuff_step.
    now rewrite H1, H2, H3, H4.
Qed.

(** X2: the reversal never makes a buffer longer, and it returns the empty
    buffer for the empty buffer only. *)
Theorem reverse_byte_stuffing_bounds (raw : bytes) :
  len (reverse_byte_stuffing raw) <= len raw /\
  (reverse_byte_stuffing raw = [] <-> raw = []).
Proof.
  split; [apply reverse_byte_stuffing_len|]. split.
  - intros H. destruct raw as [|x l]; [reflexivity|].
    pose proof (reverse_byte_stuffing_nonempty (x :: l)) as Hne.
    rewrite H in Hne. unfold len in Hne. cbn [List.length] in Hne. lia.
  - now intros ->.
Qed.

(** X3: no buffer that one call of [reverse_byte_stuffing] returns holds
    0x7D followed by 0x31, or 0x7D followed by 0x33, whatever its argument
    is. *)
Theorem reverse_byte_stuffing_never_yields_7d_31 (raw : bytes) :
  contains x7d x31 (reverse_byte_stuffing raw) = false /\
  contains x7d x33 (reverse_byte_stuffing raw) = false.
Proof.
  rewrite reverse_byte_stuffing_replace. split.
  - apply replace_keeps_absent; try reflexivity.
    apply replace_removes; reflexivity.
  - apply replace_removes; reflexivity.
Qed.

(** * Further properties of the accumulating read *)

Section ReadLoopMore.

Variable u : uart.

Ltac loop_step :=
  rewrite read_loop_eq;
  let E := fresh "Egt" in
  destruct (_ >? 0) eqn:E;
  [apply Z.gtb_lt in E | rewrite Z.gtb_ltb in E; apply Z.ltb_ge in E].


(** Every bound the loop passes to the UART is positive and at most what was
    missing when the loop was entered; there is at most one read per unit of
    fuel. *)
Lemma read_loop_requests fuel : forall length data log,
  exists ns,
    snd (read_loop u fuel length data log) = log ++ map EvRead ns /\
    Forall (fun n => 0 < n <= length) ns /\
    (List.length ns <= fuel)%nat.
Proof.
  induction fuel as [|fuel IH]; intros length data log; loop_step;
    try (exists []; simpl; rewrite app_nil_r; repeat split; auto; lia).
  destruct (uart_read u (List.length log) length) as [raw|].
  - destruct (IH (length - len (reverse_byte_stuffing raw))
                 (data ++ reverse_byte_stuffing raw) (log ++ [EvRead length]))
      as (ns & Hns & Hall & Hcount).
    exists (length :: ns). rewrite Hns, <- app_assoc. repeat split; simpl; try lia.
    constructor; [lia|].
    eapply Forall_impl; [|exact Hall]. simpl. intros n Hn.
    assert (0 <= len (reverse_byte_stuffing raw)) by (unfold len; lia). lia.
  - exists [length]. repeat split; simpl; try lia. constructor; [lia | constructor].
Qed.

(** On a UART that never answers with zero bytes, the loop makes at most as
    many reads as bytes were missing. *)
Lemma read_loop_count (Hsome : never_empty u) fuel : forall length data log,
  exists ns,
    snd (read_loop u fuel length data log) = log ++ map EvRead ns /\
    (List.length ns <= Z.to_nat length)%nat.
Proof.
  induction fuel as [|fuel IH]; intros length data log; loop_step;
    try (exists []; simpl; rewrite app_nil_r; split; auto; lia).
  pose proof (Hsome (List.length log) length (Z.lt_le_incl _ _ Egt)) as H.
  destruct (uart_read u (List.length log) length) as [raw|].
  - destruct (IH (length - len (reverse_byte_stuffing raw))
                 (data ++ reverse_byte_stuffing raw) (log ++ [EvRead length]))
      as (ns & Hns & Hcount).
    exists (length :: ns). rewrite Hns, <- app_assoc. split; [reflexivity|].
    pose proof (reverse_byte_stuffing_nonempty raw). simpl. lia.
  - exists [length]. split; [reflexivity|]. simpl. lia.
Qed.

(** The loop returns [None] only from the branch of a read that timed out,
    and that read is the last it made. *)
Lemma read_loop_none fuel : forall length data log log',
  read_loop u fuel length data log = (Timeout, log') ->
  exists pre n,
    log' = pre ++ [EvRead n] /\ (List.length log <= List.length pre)%nat /\
    uart_read u (List.length pre) n = None.
Proof.
  induction fuel as [|fuel IH]; intros length data log log'; loop_step;
    try discriminate.
  destruct (uart_read u (List.length log) length) as [raw|] eqn:Eraw.
  - intros Hrun. apply IH in Hrun as (pre & n & Hlog & Hpre & Hnone).
    exists pre, n. repeat split; auto. rewrite length_app in Hpre. lia.
  - intros [= <-]. exists log, length. auto.
Qed.

(** The loop never raises. *)
Lemma read_loop_never_raises fuel : forall length data log,
  fst (read_loop u fuel length data log) <> Raised.
Proof.
  induction fuel as [|fuel IH]; intros length data log; loop_step; try discriminate.
  destruct (uart_read u (List.length log) length); [apply IH | discriminate].
Qed.

End ReadLoopMore.

(** X4: the buffer [read] returns is the reversal of each chunk it received,
    chunk by chunk, in the order of arrival. *)
Theorem read_returns_per_chunk_reversals (u : uart) (fuel : nat) (length : Z)
    (log : list event) (data : bytes) (log' : list event) :
  read u fuel length log = (Return data, log') ->
  data = List.concat (map reverse_byte_stuffing
                        (chunks_from u (List.length log) (skipn (List.length log) log'))).
Proof. intros H. apply read_loop_chunks in H. exact H. Qed.

Lemma read_of_escaped_chunk :
  read escaped_uart 5 3 [] = (Return [x7e; x01; x02], [EvRead 3; EvRead 1]) /\
  [x7e; x01; x02] =
    List.concat (map reverse_byte_stuffing [[x7d; x5e; x01]; [x02]]).
Proof.
  split; [reflexivity|].
  apply (read_returns_per_chunk_reversals escaped_uart 5 3 [] _ [EvRead 3; EvRead 1]).
  reflexivity.
Defined.



(** X6: the only calls [read length] makes are bounded reads, and every bound
    is positive and at most [length]; for [length <= 0] it makes no call. *)
Theorem read_requests_are_bounded (u : uart) (fuel : nat) (length : Z) (log : list event) :
  exists ns,
    snd (read u fuel length log) = log ++ map EvRead ns /\
    Forall (fun n => 0 < n <= length) ns /\
    (length <= 0 -> ns = []).
Proof.
  destruct (read_loop_requests u fuel length [] log) as (ns & Hlog & Hall & _).
  exists ns. repeat split; auto.
  intros Hle. destruct ns as [|n ns]; [reflexivity|].
  inversion Hall; subst. lia.
Qed.

(** X7: on a UART whose reads return at least one byte or time out,
    [read length] makes at most [length] reads. *)
Theorem read_makes_at_most_length_reads (u : uart) (fuel : nat) (length : Z)
    (log : list event) :
  never_empty u ->
  exists ns,
    snd (read u fuel length log) = log ++ map EvRead ns /\
    (List.length ns <= Z.to_nat length)%nat.
Proof. intros H. now apply read_loop_count. Qed.

Lemma trickle_takes_three_reads :
  exists ns,
    snd (read trickle_uart 9 3 []) = [] ++ map EvRead ns /\
    (List.length ns <= Z.to_nat 3)%nat.
Proof.
  apply (read_makes_at_most_length_reads trickle_uart 9 3 []), trickle_never_empty.
Defined.

(** X8: [read] returns [None] only when a read timed out: the last call of
    the run is then a bounded read that the UART answered with [None]. *)
Theorem read_none_only_on_timeout (u : uart) (fuel : nat) (length : Z)
    (log log' : list event) :
  read u fuel length log = (Timeout, log') ->
  exists pre n,
    log' = pre ++ [EvRead n] /\ (List.length log <= List.length pre)%nat /\
    uart_read u (List.length pre) n = None.
Proof. apply read_loop_none. Qed.

Lemma stall_is_a_timed_out_read :
  exists pre n,
    [EvRead 47; EvRead 45] = pre ++ [EvRead n] /\
    (List.length (@nil event) <= List.length pre)%nat /\
    uart_read stalling_uart (List.length pre) n = None.
Proof.
  apply (read_none_only_on_timeout stalling_uart 5 47 [] [EvRead 47; EvRead 45]).
  reflexivity.
Defined.

(** * Further properties of the queries *)

Lemma firstn_length_app {A : Type} (l r : list A) : firstn (List.length l) (l ++ r) = l.
Proof. induction l; simpl; congruence. Qed.

Lemma unpack_floats_length (n : nat) : forall (bs : bytes) (values : list spec_float),
  unpack_floats n bs = Some values -> List.length values = n.
Proof.
  induction n as [|n IH]; intros bs values.
  - intros [= <-]. reflexivity.
  - destruct bs as [|b0 [|b1 [|b2 [|b3 rest]]]]; try discriminate.
    cbn [unpack_floats]. destruct (unpack_floats n rest) as [tl|] eqn:E; [|discriminate].
    intros [= <-]. simpl. f_equal. now apply (IH rest).
Qed.

Lemma unpack_signed_size (n : nat) : forall bs : bytes,
  List.length bs = n -> unpack_signed n bs = Some (map signed_byte bs).
Proof.
  induction n as [|n IH]; intros [|b rest] Hlen; try discriminate; [reflexivity|].
  cbn [unpack_signed]. rewrite IH; [reflexivity|]. simpl in Hlen. lia.
Qed.

Lemma unpack_signed_short (n : nat) : forall bs : bytes,
  (List.length bs < n)%nat -> unpack_signed n bs = None.
Proof.
  induction n as [|n IH]; intros [|b rest] Hlen; simpl in Hlen; try lia; [reflexivity|].
  cbn [unpack_signed]. rewrite IH; [reflexivity | lia].
Qed.

Lemma string_of_list_byte_length (bs : bytes) :
  String.length (string_of_list_byte bs) = List.length bs.
Proof.
  unfold string_of_list_byte. induction bs as [|b bs IH]; simpl; congruence.
Qed.

(** [read_product_type] and [read_serial_number] in terms of the answer to
    their one read. *)
Lemma read_text_eq (u : uart) (frame : bytes) (log : list event) :
  read_text u frame log =
  (match uart_read u (List.length (request_sent u frame log)) 24 with
   | None => Timeout
   | Some raw =>
       match decode_ascii (slice 5 3 (reverse_byte_stuffing raw)) with
       | Some text => Return text
       | None => Raised
       end
   end, request_sent u frame log ++ [EvRead 24]).
Proof.
  unfold read_text, request_sent, bind.
  destruct (flush_input u log) as [[] log1]. simpl.
  destruct (uart_read u _ 24) as [raw|]; [|reflexivity].
  destruct (decode_ascii _); reflexivity.
Qed.

Lemma read_firmware_version_eq (u : uart) (log : list event) :
  read_firmware_version u log =
  (match uart_read u (List.length (request_sent u read_firmware_version_frame log)) 14 with
   | None => Timeout
   | Some raw =>
       match unpack_signed 7 (slice 5 2 (reverse_byte_stuffing raw)) with
       | Some (major :: minor :: _) => Return (str major ++ "." ++ str minor)%string
       | _ => Raised
       end
   end, request_sent u read_firmware_version_frame log ++ [EvRead 14]).
Proof.
  unfold read_firmware_version, request_sent, bind.
  destruct (flush_input u log) as [[] log1]. cbn -[unpack_signed].
  destruct (uart_read u _ 14) as [raw|]; [|reflexivity].
  match goal with
  | |- context [unpack_signed 7 ?x] =>
      destruct (unpack_signed 7 x) as [[|major [|minor rest]]|]; reflexivity
  end.
Qed.

(** X9: [read_values] never raises, and the tuple it returns has ten values,
    whatever the UART delivered. *)
Theorem read_values_ten_values_or_none (u : uart) (fuel : nat) (log : list event) :
  match fst (read_values u fuel log) with
  | Return values => List.length values = 10%nat
  | Raised => False
  | Timeout | OutOfFuel => True
  end.
Proof.
  rewrite read_values_eq.
  pose proof (read_loop_never_raises u fuel 47 [] (after_request u log)) as Hraise.
  fold (read u fuel 47 (after_request u log)) in Hraise.
  destruct (read u fuel 47 (after_request u log)) as [[raw| | |] log1]; simpl in *; auto.
  unfold decode_values.
  destruct (unpack_floats 10 (slice 5 2 raw)) as [values|] eqn:E; [|reflexivity].
  now apply unpack_floats_length in E.
Qed.

(** X10: [read_values] validates nothing of the response.  When the read of
    47 bytes is answered with 47 bytes that hold no escape sequence, the ten
    values are those of bytes 5 to 44, whatever the first five and the last
    two bytes are: markers, length and checksum are not looked at. *)
Theorem read_values_ignores_header_and_trailer (u : uart) (fuel : nat)
    (log : list event) (header payload trailer : bytes) :
  List.length header = 5%nat ->
  List.length payload = 40%nat ->
  List.length trailer = 2%nat ->
  reverse_byte_stuffing (header ++ payload ++ trailer) = header ++ payload ++ trailer ->
  uart_read u (List.length (after_request u log)) 47 = Some (header ++ payload ++ trailer) ->
  read_values u (S fuel) log =
    (Return (map (float_at payload) (seq 0 10)), after_request u log ++ [EvRead 47]).
Proof.
  intros Hh Hp Ht Hplain Hread.
  rewrite read_values_eq. unfold read.
  rewrite read_loop_eq. change (47 >? 0) with true. cbv iota.
  rewrite Hread, Hplain.
  assert (Hlen : len (header ++ payload ++ trailer) = 47).
  { unfold len. rewrite !length_app, Hh, Hp, Ht. reflexivity. }
  rewrite Hlen, read_loop_eq. change (47 - 47 >? 0) with false. cbv iota.
  cbn [app]. f_equal. f_equal.
  assert (Hslice : slice 5 2 (header ++ payload ++ trailer) = payload).
  { unfold slice. rewrite !length_app, Hh, Hp, Ht.
    replace (skipn 5 (header ++ payload ++ trailer)) with (payload ++ trailer)
      by (rewrite <- Hh; symmetry; apply skipn_length_app).
    change (5 + (40 + 2) - 2 - 5)%nat with 40%nat.
    rewrite <- Hp. apply firstn_length_app. }
  rewrite Hslice. unfold decode_values. now rewrite (unpack_floats_size 10).
Qed.

Lemma unframed_measurement_is_decoded :
  read_values (one_shot unframed_measurement) 1 [] =
    (Return (map (float_at unit_payload) (seq 0 10)),
     after_request (one_shot unframed_measurement) [] ++ [EvRead 47]).
Proof.
  apply (read_values_ignores_header_and_trailer
           (one_shot unframed_measurement) 0 [] (zeros 5) unit_payload (zeros 2));
    reflexivity.
Defined.

(** X11: [read_product_type] and [read_serial_number] make one read and take
    what it brings.  When it brings 8 bytes or fewer, the slice [raw[5:-3]] is
    empty and the method returns the empty string, not an error. *)
Theorem read_text_short_response (u : uart) (frame : bytes) (log : list event) (raw : bytes) :
  uart_read u (List.length (request_sent u frame log)) 24 = Some raw ->
  len raw <= 8 ->
  read_text u frame log = (Return ""%string, request_sent u frame log ++ [EvRead 24]).
Proof.
  intros Hread Hlen. rewrite read_text_eq, Hread.
  pose proof (reverse_byte_stuffing_len raw) as Hrev.
  unfold slice, len in *.
  replace (List.length (reverse_byte_stuffing raw) - 3 - 5)%nat with 0%nat by lia.
  reflexivity.
Qed.

Lemma product_type_of_three_bytes :
  read_product_type (one_shot [x7e; x00; xd0]) [] =
    (Return ""%string,
     request_sent (one_shot [x7e; x00; xd0]) read_product_type_frame [] ++ [EvRead 24]).
Proof.
  apply (read_text_short_response (one_shot [x7e; x00; xd0])
           read_product_type_frame [] [x7e; x00; xd0]).
  - reflexivity.
  - unfold len. simpl. lia.
Defined.

(** X12: the string [read_product_type] or [read_serial_number] returns is
    made of the bytes [raw[5:-3]] of the reversed answer to its one read, as
    they are; when the answer has at most the 24 bytes asked for, the string
    has at most 16 bytes. *)
Theorem read_text_bytes (u : uart) (frame : bytes) (log : list event)
    (text : string) (log' : list event) :
  read_text u frame log = (Return text, log') ->
  exists raw,
    uart_read u (List.length (request_sent u frame log)) 24 = Some raw /\
    list_byte_of_string text = slice 5 3 (reverse_byte_stuffing raw) /\
    (len raw <= 24 -> (String.length text <= 16)%nat).
Proof.
  rewrite read_text_eq.
  destruct (uart_read u _ 24) as [raw|]; [|discriminate].
  unfold decode_ascii.
  destruct (utf8_check 0 (slice 5 3 (reverse_byte_stuffing raw))); [|discriminate].
  intros [= <- _]. exists raw.
  rewrite list_byte_of_string_of_list_byte, string_of_list_byte_length.
  repeat split; auto.
  intros Hlen. pose proof (reverse_byte_stuffing_len raw) as Hrev.
  rewrite slice_length. unfold len in *. lia.
Qed.

Lemma product_type_is_the_payload_text :
  exists raw,
    uart_read (one_shot product_type_response)
      (List.length (request_sent (one_shot product_type_response) read_product_type_frame []))
      24 = Some raw /\
    list_byte_of_string "00080000" = slice 5 3 (reverse_byte_stuffing raw) /\
    (len raw <= 24 -> (String.length "00080000" <= 16)%nat).
Proof.
  apply (read_text_bytes (one_shot product_type_response) read_product_type_frame []
           "00080000"%string [EvAny; EvWrite read_product_type_frame; EvRead 24]).
  reflexivity.
Defined.

(** X13: [read_firmware_version] has no [try]: when its one read of 14 bytes
    is answered with at most 14 bytes, it returns a version only if the
    reversed answer still has 14 bytes, and the version is made of the bytes
    at offsets 5 and 6 read as signed numbers; a shorter answer, or one made
    shorter by the reversal, makes [struct.unpack] raise. *)
Theorem read_firmware_version_needs_14_bytes (u : uart) (log : list event) (raw : bytes) :
  uart_read u (List.length (request_sent u read_firmware_version_frame log)) 14 = Some raw ->
  len raw <= 14 ->
  (len (reverse_byte_stuffing raw) = 14 ->
   fst (read_firmware_version u log) =
     Return (str (signed_byte (nth 5 (reverse_byte_stuffing raw) x00)) ++ "." ++
             str (signed_byte (nth 6 (reverse_byte_stuffing raw) x00)))%string) /\
  (len (reverse_byte_stuffing raw) < 14 ->
   fst (read_firmware_version u log) = Raised).
Proof.
  intros Hread Hlen. rewrite read_firmware_version_eq, Hread. cbn [fst].
  split; intros Hrev.
  - assert (H14 : List.length (reverse_byte_stuffing raw) = 14%nat) by (unfold len in Hrev; lia).
    destruct (reverse_byte_stuffing raw)
      as [|b0 [|b1 [|b2 [|b3 [|b4 [|b5 [|b6 [|b7 [|b8 [|b9
          [|b10 [|b11 [|b12 [|b13 [|b14 rest]]]]]]]]]]]]]]]; try discriminate.
    reflexivity.
  - rewrite unpack_signed_short; [reflexivity|].
    rewrite slice_length. unfold len in Hrev. lia.
Qed.

Lemma stuffed_firmware_version_raises :
  len (reverse_byte_stuffing stuffed_firmware_response) = 13 /\
  fst (read_firmware_version (one_shot stuffed_firmware_response) []) = Raised.
Proof.
  split; [reflexivity|].
  apply (read_firmware_version_needs_14_bytes
           (one_shot stuffed_firmware_response) [] stuffed_firmware_response).
  - reflexivity.
  - unfold len. simpl. lia.
  - unfold len. simpl. lia.
Defined.

(** X14: a call of a method writes one frame, its own, whatever the UART
    answers: nothing is sent again after a timeout or a failed decoding. *)
Theorem one_frame_per_call (u : uart) (fuel : nat) (op : operation) :
  writes (calls u fuel op) = [command_frame op].
Proof. apply writes_calls. Qed.

Lemma request_sent_eq (u : uart) (frame : bytes) (log : list event) :
  request_sent u frame log = snd (flush_input u log) ++ [EvWrite frame].
Proof.
  unfold request_sent, bind. destruct (flush_input u log) as [[] log1]. reflexivity.
Qed.

Lemma flush_input_eq (u : uart) (log : list event) :
  snd (flush_input u log) =
  log ++ (if uart_any u (List.length log) then [EvAny; EvReadAll] else [EvAny]).
Proof.
  unfold flush_input, bind, any. destruct (uart_any u (List.length log)); simpl.
  - now rewrite <- app_assoc.
  - reflexivity.
Qed.

(** X15: the queries can follow any calls.  Whatever the log holds when a
    query starts, the query appends the calls of [flush_input] (one [any],
    and one unbounded read when something is pending), then the write of its
    frame, then bounded reads only: one of 24 bytes, one of 14 bytes, or
    those of the loop of [read]. *)
Theorem queries_flush_first_on_any_log (u : uart) (fuel : nat) (log : list event) :
  snd (flush_input u log) =
    log ++ (if uart_any u (List.length log) then [EvAny; EvReadAll] else [EvAny]) /\
  (exists ns, snd (read_values u fuel log) =
                snd (flush_input u log) ++ EvWrite read_values_frame :: map EvRead ns) /\
  snd (read_product_type u log) =
    snd (flush_input u log) ++ [EvWrite read_product_type_frame; EvRead 24] /\
  snd (read_serial_number u log) =
    snd (flush_input u log) ++ [EvWrite read_serial_number_frame; EvRead 24] /\
  snd (read_firmware_version u log) =
    snd (flush_input u log) ++ [EvWrite read_firmware_version_frame; EvRead 14].
Proof.
  split; [apply flush_input_eq|]. split; [|split; [|split]].
  - rewrite read_values_eq.
    destruct (read_loop_log u fuel 47 [] (after_request u log)) as [ns Hns].
    fold (read u fuel 47 (after_request u log)) in Hns.
    destruct (read u fuel 47 (after_request u log)) as [r log1]. simpl in *.
    exists ns. rewrite Hns. change (after_request u log) with
      (request_sent u read_values_frame log).
    now rewrite request_sent_eq, <- app_assoc.
  - unfold read_product_type. rewrite read_text_eq. cbn [snd].
    now rewrite request_sent_eq, <- app_assoc.
  - unfold read_serial_number. rewrite read_text_eq. cbn [snd].
    now rewrite request_sent_eq, <- app_assoc.
  - rewrite read_firmware_version_eq. cbn [snd].
    now rewrite request_sent_eq, <- app_assoc.
Qed.

(** * The library calls on known values *)

Example be32_byte_order : be32 x01 x02 x03 x04 = 16909060.
Proof. reflexivity. Qed.

(** 1.0, 10.0, -2.0, the smallest subnormal number, the infinities, a NaN and
    the two zeros, as [struct.unpack(">f", ...)] gives them. *)
Example unpack_known_floats :
  unpack_floats 9 ([x3f; x80; x00; x00] ++ [x41; x20; x00; x00] ++ [xc0; x00; x00; x00] ++
                   [x00; x00; x00; x01] ++ [x7f; x80; x00; x00] ++ [xff; x80; x00; x00] ++
                   [x7f; xc0; x00; x00] ++ [x00; x00; x00; x00] ++ [x80; x00; x00; x00]) =
  Some [S754_finite false 8388608 (-23); S754_finite false 10485760 (-20);
        S754_finite true 8388608 (-22); S754_finite false 1 (-149);
        S754_infinity false; S754_infinity true; S754_nan;
        S754_zero false; S754_zero true].
Proof. reflexivity. Qed.

Example ieee_binary32_known_values :
  ieee_binary32 false 127 0 = S754_finite false 8388608 (-23) /\
  ieee_binary32 false 130 2097152 = S754_finite false 10485760 (-20) /\
  ieee_binary32 true 128 0 = S754_finite true 8388608 (-22) /\
  ieee_binary32 false 0 1 = S754_finite false 1 (-149) /\
  ieee_binary32 true 255 0 = S754_infinity true /\
  ieee_binary32 false 255 4194304 = S754_nan /\
  ieee_binary32 true 0 0 = S754_zero true.
Proof. repeat split. Qed.

(** A buffer that is too long is unpacked from its start; one that is too
    short is refused. *)
Example unpack_sizes :
  unpack_signed 2 [x01; xff; x7f] = Some [1; -1] /\
  unpack_signed 2 [x01] = None /\
  unpack_floats 1 [x3f; x80; x00; x00; x15] = Some [S754_finite false 8388608 (-23)] /\
  unpack_floats 1 [x3f; x80; x00] = None.
Proof. repeat split. Qed.

(** [bytes.decode]: text in UTF-8 is taken as it is, also outside ASCII; a
    continuation byte without a lead byte, a lead byte without its
    continuation bytes and the bytes 0xF8..0xFF are refused. *)
Example decode_known_bytes :
  decode_ascii (list_byte_of_string "00080000") = Some "00080000"%string /\
  decode_ascii [] = Some ""%string /\
  decode_ascii [xc3; xa9] = Some (string_of_list_byte [xc3; xa9]) /\
  decode_ascii [xe2; x82; xac] = Some (string_of_list_byte [xe2; x82; xac]) /\
  decode_ascii [x80] = None /\
  decode_ascii [xc3] = None /\
  decode_ascii [xc3; x41] = None /\
  decode_ascii [xff] = None /\
  map utf8_need [192; 223; 224; 239; 240; 247] = [1; 1; 2; 2; 3; 3]%nat.
Proof. repeat split. Qed.
